(** * setup-nvim.ts: the configuration installer, embedded and verified

    The script [src/.local/bin/setup-nvim.ts] checks three external tools,
    moves an existing [~/.config/nvim] to [~/.config/nvim.backup], writes a
    fixed list of configuration files and creates a sample project.

    The embedding follows the script method by method ([Script]).  What
    the script calls but does not define (the Deno runtime and the std
    [fs] and [path] modules) is modelled in the first two modules:

    - [Fs]: a POSIX directory tree without symbolic links, with the
      operations behind [exists], [ensureDir], [Deno.writeTextFile],
      [Deno.remove] and [Deno.rename];
    - [Rt]: the process state (file system, working directory, environment,
      external tools, pending I/O faults, trace of calls) and the monad in
      which the methods run, with exceptions and [Deno.exit].

    Paths are kept in the normalised form [join] returns: a list of
    components from the root.  [HOME] is read as an absolute POSIX path.

    [Props] holds the notions the statements are written in and
    [Scenario] a few concrete worlds.  The facts follow, from the tree
    ([FsFacts]) up to the whole run ([RunFacts], [BackupRun],
    [LoopFacts]); [Claims] states and proves the properties C1 to C10 of
    the specification, and [Checks] evaluates them on the worlds of
    [Scenario]. *)

From Stdlib Require Import String Ascii List Bool Arith Lia ZArith.
Import ListNotations.
Open Scope string_scope.

(* ================================================================== *)
(** ** The directory tree *)

Module Fs.

Definition path := list string.

#[local] Unset Elimination Schemes.
Inductive node : Type :=
| File (content : string)
| Dir (entries : list (string * node)).
#[local] Set Elimination Schemes.

Inductive errno : Type :=
| ENOENT | ENOTDIR | EISDIR | ENOTEMPTY | EINVAL | EBUSY
| EACCES | ENOSPC | EXDEV | EIO.

Inductive res (A : Type) : Type :=
| Ok (a : A)
| Err (e : errno).
Arguments Ok {A} a.
Arguments Err {A} e.

Definition res_bind {A B} (r : res A) (k : A -> res B) : res B :=
  match r with Ok a => k a | Err e => Err e end.

(** *** Directory entries *)

Fixpoint entry (x : string) (es : list (string * node)) : option node :=
  match es with
  | [] => None
  | (y, m) :: es' => if String.eqb x y then Some m else entry x es'
  end.

(** [set_entry x (Some m) es] binds [x] to [m] (in place when [x] is
    listed, at the end otherwise); [set_entry x None es] unlinks [x]. *)
Fixpoint set_entry (x : string) (o : option node) (es : list (string * node))
  : list (string * node) :=
  match es with
  | [] => match o with Some m => [(x, m)] | None => [] end
  | (y, m) :: es' =>
      if String.eqb x y
      then match o with
           | Some m' => (y, m') :: es'
           | None => set_entry x None es'
           end
      else (y, m) :: set_entry x o es'
  end.

(** *** Lookup *)

(** [get o p]: what is found at [p] below [o]; [None] when nothing is. *)
Fixpoint get (o : option node) (p : path) : option node :=
  match p with
  | [] => o
  | x :: p' =>
      match o with
      | Some (Dir es) => get (entry x es) p'
      | _ => None
      end
  end.

(** What [stat] reports: a missing name is [ENOENT], walking through a
    regular file is [ENOTDIR]. *)
Fixpoint stat (o : option node) (p : path) : res node :=
  match p with
  | [] => match o with Some n => Ok n | None => Err ENOENT end
  | x :: p' =>
      match o with
      | Some (Dir es) => stat (entry x es) p'
      | Some (File _) => Err ENOTDIR
      | None => Err ENOENT
      end
  end.

Definition is_dir (o : option node) : bool :=
  match o with Some (Dir _) => true | _ => false end.

(** *** Update at a path *)

(** [focus mk p k o] walks down [p] from [o], hands what it finds there
    to [k] and links [k]'s answer in its place.  With [mk] the missing
    directories on the way are created, without it they are [ENOENT]. *)
Fixpoint focus (mk : bool) (p : path)
  (k : option node -> res (option node)) (o : option node)
  : res (option node) :=
  match p with
  | [] => k o
  | x :: p' =>
      match o with
      | None =>
          if mk
          then res_bind (focus mk p' k None)
                 (fun o' => Ok (Some (Dir (set_entry x o' []))))
          else Err ENOENT
      | Some (File _) => Err ENOTDIR
      | Some (Dir es) =>
          res_bind (focus mk p' k (entry x es))
            (fun o' => Ok (Some (Dir (set_entry x o' es))))
      end
  end.

(** The root itself can be rewritten but never unlinked. *)
Definition at_root (f : option node -> res (option node)) (n : node)
  : res node :=
  match f (Some n) with
  | Ok (Some n') => Ok n'
  | Ok None => Err EBUSY
  | Err e => Err e
  end.

(** *** Prefixes *)

Fixpoint is_prefix (p q : path) : bool :=
  match p, q with
  | [], _ => true
  | x :: p', y :: q' => String.eqb x y && is_prefix p' q'
  | _ :: _, [] => false
  end.

(** [strip p q] is [Some r] exactly when [q = p ++ r]. *)
Fixpoint strip (p q : path) : option path :=
  match p, q with
  | [], _ => Some q
  | x :: p', y :: q' => if String.eqb x y then strip p' q' else None
  | _ :: _, [] => None
  end.

(** *** The five operations *)

(** What each operation does with what it finds at its path. *)

Definition ensure_dir (o : option node) : res (option node) :=
  match o with
  | None => Ok (Some (Dir []))
  | Some (Dir es) => Ok (Some (Dir es))
  | Some (File _) => Err ENOTDIR
  end.

Definition put_file (content : string) (o : option node)
  : res (option node) :=
  match o with
  | Some (Dir _) => Err EISDIR
  | _ => Ok (Some (File content))
  end.

Definition unlink (o : option node) : res (option node) :=
  match o with
  | None => Err ENOENT
  | Some _ => Ok None
  end.

(** [ensureDir]: an existing directory is left alone, anything else at
    the path is an error, missing directories are created recursively. *)
Definition mkdir_p (p : path) : node -> res node :=
  at_root (focus true p ensure_dir).

(** [Deno.writeTextFile]: creates the file or replaces its content; the
    parent directory has to exist and the path must not be a directory. *)
Definition write_file (p : path) (content : string) : node -> res node :=
  at_root (focus false p (put_file content)).

(** [Deno.remove] with [recursive: true]: unlinks the whole subtree. *)
Definition remove_all (p : path) : node -> res node :=
  at_root (focus false p unlink).

(** [Deno.rename], as rename(2): the source is unlinked and linked at the
    destination; a destination that exists is replaced only when it is a
    file (for a file) or an empty directory (for a directory). *)
Definition rename (src dst : path) (n : node) : res node :=
  match stat (Some n) src with
  | Err e => Err e
  | Ok x =>
      if list_eq_dec string_dec src dst then Ok n
      else if is_prefix src dst then Err EINVAL
      else
        match get (Some n) dst, x with
        | Some (Dir (_ :: _)), _ => Err ENOTEMPTY
        | Some (Dir []), File _ => Err EISDIR
        | Some (File _), Dir _ => Err ENOTDIR
        | _, _ =>
            res_bind (at_root (focus false src (fun _ => Ok None)) n)
              (at_root (focus false dst (fun _ => Ok (Some x))))
        end
  end.

End Fs.

(* ================================================================== *)
(** ** The runtime *)

Module Rt.

Inductive error : Type :=
| JsError (message : string)      (* [new Error(message)] *)
| OsError (e : Fs.errno).         (* raised by a Deno call *)

Definition strerror (e : Fs.errno) : string :=
  match e with
  | Fs.ENOENT => "No such file or directory (os error 2)"
  | Fs.ENOTDIR => "Not a directory (os error 20)"
  | Fs.EISDIR => "Is a directory (os error 21)"
  | Fs.ENOTEMPTY => "Directory not empty (os error 39)"
  | Fs.EINVAL => "Invalid argument (os error 22)"
  | Fs.EBUSY => "Device or resource busy (os error 16)"
  | Fs.EACCES => "Permission denied (os error 13)"
  | Fs.ENOSPC => "No space left on device (os error 28)"
  | Fs.EXDEV => "Invalid cross-device link (os error 18)"
  | Fs.EIO => "Input/output error (os error 5)"
  end.

(** [error.message] *)
Definition message (e : error) : string :=
  match e with
  | JsError m => m
  | OsError e => strerror e
  end.

(** Every call that leaves the script, in the order it is made. *)
Inductive event : Type :=
| Log (line : string)                          (* console.log *)
| LogError (line : string)                     (* console.error *)
| EnvGet (name : string)                       (* Deno.env.get *)
| Cwd                                          (* Deno.cwd *)
| Spawn (cmd : string) (args : list string)    (* new Deno.Command(..).output() *)
| Exists (p : Fs.path)                         (* exists *)
| EnsureDir (p : Fs.path)                      (* ensureDir *)
| WriteTextFile (p : Fs.path) (content : string)
| Remove (p : Fs.path)                         (* Deno.remove, recursive *)
| Rename (src dst : Fs.path).                  (* Deno.rename *)

(** How probing an external tool ends. *)
Inductive probe : Type :=
| NotLaunched                  (* the executable cannot be started *)
| Exited (success : bool).

(** The process and its surroundings.  [cwd] is the directory the process
    stands in, [None] once that directory has been unlinked; it follows
    the directory when an ancestor is renamed, as getcwd(3) reports it.
    [faults] holds what the surroundings have in store for the next file
    system calls, one slot per call: [Some e] makes the call fail with
    [e] before it touches anything (permissions, full disk, another
    device), [None] and an exhausted list let it through. *)
Record world : Type := {
  fs : Fs.node;
  cwd : option Fs.path;
  env : string -> option string;
  tools : string -> list string -> probe;
  faults : list (option Fs.errno);
  trace : list event
}.

Definition emit (e : event) (w : world) : world :=
  {| fs := fs w; cwd := cwd w; env := env w; tools := tools w;
     faults := faults w; trace := (trace w ++ [e])%list |}.

Definition with_fs (n : Fs.node) (c : option Fs.path) (w : world) : world :=
  {| fs := n; cwd := c; env := env w; tools := tools w;
     faults := faults w; trace := trace w |}.

Definition next_fault (w : world) : option Fs.errno * world :=
  match faults w with
  | [] => (None, w)
  | f :: rest =>
      (f, {| fs := fs w; cwd := cwd w; env := env w; tools := tools w;
             faults := rest; trace := trace w |})
  end.

(** *** The monad of the script's methods *)

Inductive outcome (A : Type) : Type :=
| Return (a : A)
| Throw (e : error)
| Exit (code : Z).              (* Deno.exit: no handler sees it *)
Arguments Return {A} a.
Arguments Throw {A} e.
Arguments Exit {A} code.

Definition M (A : Type) : Type := world -> outcome A * world.

Definition ret {A} (a : A) : M A := fun w => (Return a, w).

Definition bind {A B} (m : M A) (k : A -> M B) : M B :=
  fun w =>
    match m w with
    | (Return a, w') => k a w'
    | (Throw e, w') => (Throw e, w')
    | (Exit c, w') => (Exit c, w')
    end.

Definition throw {A} (e : error) : M A := fun w => (Throw e, w).



Declare Scope script_scope.
Delimit Scope script_scope with script.
Notation "x <- m ;; k" := (bind m (fun x => k))
  (at level 61, m at next level, right associativity) : script_scope.
Notation "m ;; k" := (bind m (fun _ => k))
  (at level 61, right associativity) : script_scope.
Open Scope script_scope.

Fixpoint for_each {A} (l : list A) (body : A -> M unit) : M unit :=
  match l with
  | [] => ret tt
  | a :: l' => body a ;; for_each l' body
  end.

(** *** Calls *)

Definition console_log (line : string) : M unit :=
  fun w => (Return tt, emit (Log line) w).


Definition env_get (name : string) : M (option string) :=
  fun w => (Return (env w name), emit (EnvGet name) w).

Definition get_cwd : M Fs.path :=
  fun w =>
    match cwd w with
    | Some c => (Return c, emit Cwd w)
    | None => (Throw (OsError Fs.ENOENT), emit Cwd w)
    end.


(** A call into the file system: logged, then failed by a pending fault
    or carried out on the tree. *)
Definition fs_call (e : event) (op : Fs.node -> Fs.res Fs.node)
  (move : option Fs.path -> option Fs.path) : M unit :=
  fun w =>
    match next_fault (emit e w) with
    | (Some err, w1) => (Throw (OsError err), w1)
    | (None, w1) =>
        match op (fs w1) with
        | Fs.Ok n => (Return tt, with_fs n (move (cwd w1)) w1)
        | Fs.Err err => (Throw (OsError err), w1)
        end
    end.

(** std/fs [exists]: [false] only when the path is not found; any other
    failure of the underlying stat is rethrown. *)
Definition exists_ (p : Fs.path) : M bool :=
  fun w =>
    match next_fault (emit (Exists p) w) with
    | (Some err, w1) => (Throw (OsError err), w1)
    | (None, w1) =>
        match Fs.stat (Some (fs w1)) p with
        | Fs.Ok _ => (Return true, w1)
        | Fs.Err Fs.ENOENT => (Return false, w1)
        | Fs.Err err => (Throw (OsError err), w1)
        end
    end.

Definition ensureDir (p : Fs.path) : M unit :=
  fs_call (EnsureDir p) (Fs.mkdir_p p) (fun c => c).

Definition writeTextFile (p : Fs.path) (content : string) : M unit :=
  fs_call (WriteTextFile p content) (Fs.write_file p content) (fun c => c).

(** Unlinking a tree that holds the working directory leaves the process
    without one. *)
Definition cwd_after_remove (p : Fs.path) (c : option Fs.path)
  : option Fs.path :=
  match c with
  | Some d => if Fs.is_prefix p d then None else Some d
  | None => None
  end.

(** A working directory below [src] moves along with it; one below a
    replaced [dst] is gone. *)
Definition cwd_after_rename (src dst : Fs.path) (c : option Fs.path)
  : option Fs.path :=
  match c with
  | Some d =>
      match Fs.strip src d with
      | Some r => Some (dst ++ r)%list
      | None => if Fs.is_prefix dst d then None else Some d
      end
  | None => None
  end.

Definition remove_recursive (p : Fs.path) : M unit :=
  fs_call (Remove p) (Fs.remove_all p) (cwd_after_remove p).

Definition rename (src dst : Fs.path) : M unit :=
  fs_call (Rename src dst) (Fs.rename src dst) (cwd_after_rename src dst).

(** *** std/path [join] on POSIX *)

(** The pieces of a string between its slashes. *)
Fixpoint segments (s : string) : list string :=
  match s with
  | EmptyString => [EmptyString]
  | String c s' =>
      if Ascii.eqb c "/"%char then EmptyString :: segments s'
      else match segments s' with
           | [] => [String c EmptyString]
           | h :: t => String c h :: t
           end
  end.

(** Normalisation: empty pieces and [.] vanish, [..] drops the component
    before it.  [acc] is the path walked so far, last component first. *)
Fixpoint walk (segs : list string) (acc : list string) : Fs.path :=
  match segs with
  | [] => rev acc
  | s :: rest =>
      if String.eqb s "" then walk rest acc
      else if String.eqb s "." then walk rest acc
      else if String.eqb s ".." then walk rest (tl acc)
      else walk rest (s :: acc)
  end.

Definition join (base : Fs.path) (parts : list string) : Fs.path :=
  walk (flat_map segments parts) (rev base).

(** An absolute path string as a path. *)
Definition parse (s : string) : Fs.path := join [] [s].

(** [s.substring(0, s.lastIndexOf("/"))] of a joined path [s]. *)
Definition dirname (p : Fs.path) : Fs.path := removelast p.

Definition show (p : Fs.path) : string :=
  "/" ++ String.concat "/" p.




End Rt.

(* ================================================================== *)
(** ** The script *)

Module Script.
Import Rt.

Record ConfigFile : Type := {
  path : string;
  content : string;
  description : string
}.

(** The literal texts the script carries: the nine Lua files of
    [getConfigFiles] and the three files of the sample project (the first
    of them is [JSON.stringify(denoConfig, null, 2)]).  They are written
    out verbatim and never inspected, so they stay abstract here. *)
Record Texts : Type := {
  init_lua : string;
  options_lua : string;
  lazy_lua : string;
  keymaps_lua : string;
  lsp_lua : string;
  completion_lua : string;
  treesitter_lua : string;
  telescope_lua : string;
  ui_lua : string;
  deno_json : string;
  main_ts : string;
  main_test_ts : string
}.

(** An instance of the class.  [createSampleDenoProject] is the slot
    [this.createSampleDenoProject] resolves to: the method of the class
    unless [main] has assigned another function to the instance. *)
Record NeovimSetup : Type := {
  configDir : Fs.path;
  backupDir : Fs.path;
  createSampleDenoProject : M unit
}.


Section Class.

Variable texts : Texts.

(** [createSampleDenoProject], the method of the class. *)
Definition createSampleDenoProject_method : M unit :=
  console_log "📄 Creating sample Deno project..." ;;
  cwd <- get_cwd ;;
  let projectDir := join cwd ["deno-sample-project"] in
  ensureDir projectDir ;;
  writeTextFile (join projectDir ["deno.json"]) (deno_json texts) ;;
  writeTextFile (join projectDir ["main.ts"]) (main_ts texts) ;;
  writeTextFile (join projectDir ["main_test.ts"]) (main_test_ts texts) ;;
  console_log ("✅ Sample project created at: " ++ show projectDir)%string ;;
  console_log "   You can test the setup by running:" ;;
  console_log ("   cd " ++ show projectDir ++ " && nvim main.ts")%string.

(** The instance for a resolved home directory. *)
Definition new_setup (homeDir : string) : NeovimSetup :=
  {| configDir := join (parse homeDir) [".config"; "nvim"];
     backupDir := join (parse homeDir) [".config"; "nvim.backup"];
     createSampleDenoProject := createSampleDenoProject_method |}.

(** [constructor]: [HOME || USERPROFILE]; an unset or empty variable is
    falsy. *)
Definition constructor : M NeovimSetup :=
  home <- env_get "HOME" ;;
  homeDir <- match home with
             | Some (String _ _) => ret home
             | _ => env_get "USERPROFILE"
             end ;;
  match homeDir with
  | Some (String c h) => ret (new_setup (String c h))
  | _ => throw (JsError "Could not determine home directory")
  end.


Definition backupExistingConfig (this : NeovimSetup) : M unit :=
  present <- exists_ (configDir this) ;;
  if present then
    console_log "📦 Backing up existing Neovim configuration..." ;;
    old <- exists_ (backupDir this) ;;
    (if old then
       console_log "🗑️  Removing old backup..." ;;
       remove_recursive (backupDir this)
     else ret tt) ;;
    rename (configDir this) (backupDir this) ;;
    console_log ("✅ Existing configuration backed up to: "
                 ++ show (backupDir this))%string
  else ret tt.


End Class.

(** The body of the loop of [createConfigFiles], for one entry. *)
Definition writeConfigFile (this : NeovimSetup) (configFile : ConfigFile)
  : M unit :=
  let fullPath := join (configDir this) [path configFile] in
  let dir := dirname fullPath in
  (* Ensure directory exists *)
  ensureDir dir ;;
  (* Write the file *)
  writeTextFile fullPath (content configFile) ;;
  console_log ("✅ Created: " ++ description configFile)%string.

(** The loop of [createConfigFiles], over any list of entries. *)
Definition writeConfigFiles (this : NeovimSetup)
  (configFiles : list ConfigFile) : M unit :=
  for_each configFiles (writeConfigFile this).





(** The function [main] assigns to the instance under [--no-sample]. *)
Definition skip_sample : M unit :=
  console_log "⏭️  Skipping sample project creation".

Definition override_sample (setup : NeovimSetup) : NeovimSetup :=
  {| configDir := configDir setup;
     backupDir := backupDir setup;
     createSampleDenoProject := skip_sample |}.



End Script.

(* ================================================================== *)
(** ** Notions the statements use *)

Module Props.
Import Rt Script.
#[local] Open Scope list_scope.

(** The instances [main] runs: the constructed one, with the sample
    step replaced under [--no-sample]. *)
Definition instance (texts : Texts) (homeDir : string) (no_sample : bool)
  : NeovimSetup :=
  if no_sample then override_sample (new_setup texts homeDir)
  else new_setup texts homeDir.

(** What is found at a path of the file system of a world. *)
Definition at_path (w : world) (p : Fs.path) : option Fs.node :=
  Fs.get (Some (fs w)) p.

(** The working directory of a process is a directory of its file
    system, unless it has been unlinked. *)
Definition valid_cwd (w : world) : Prop :=
  match cwd w with
  | Some d => Fs.is_dir (at_path w d) = true
  | None => True
  end.

(** [d] does not lie in the tree at [p]. *)
Definition outside (p : Fs.path) (d : option Fs.path) : Prop :=
  match d with
  | Some d => Fs.is_prefix p d = false
  | None => True
  end.

(** What a call leaves of the world it started in. *)
Record step (e : event) (w w' : world) : Prop := {
  step_env : env w' = env w;
  step_tools : tools w' = tools w;
  step_trace : trace w' = trace w ++ [e]
}.

(** The calls of the backup step when the target exists, with ([old]) or
    without a backup from an earlier run. *)
Definition backup_calls (this : NeovimSetup) (old : bool) : list event :=
  [Exists (configDir this);
   Log "📦 Backing up existing Neovim configuration...";
   Exists (backupDir this)]
  ++ (if old
      then [Log "🗑️  Removing old backup..."; Remove (backupDir this)]
      else [])
  ++ [Rename (configDir this) (backupDir this);
      Log ("✅ Existing configuration backed up to: "
           ++ show (backupDir this))%string].









(** *** The prerequisite check *)






(** *** The installed tree *)


(** The components of an entry's path when none of them is empty, [.]
    or [..]: then [join] only appends them. *)
Definition plain (s : string) : bool :=
  negb (String.eqb s "") && negb (String.eqb s ".")
  && negb (String.eqb s "..").



(** *** The loop over the entries *)

(** Where an entry is written. *)
Definition destination (this : NeovimSetup) (cf : ConfigFile) : Fs.path :=
  join (configDir this) [path cf].

(** The [Deno.writeTextFile] calls among some calls, in order. *)
Fixpoint writes (evs : list event) : list (Fs.path * string) :=
  match evs with
  | [] => []
  | WriteTextFile p s :: evs' => (p, s) :: writes evs'
  | _ :: evs' => writes evs'
  end.


(** *** The command line *)




End Props.

(* ================================================================== *)
(** ** Sample worlds *)

Module Scenario.
Import Rt Script Props.
#[local] Open Scope list_scope.

Definition texts : Texts :=
  {| init_lua := "-- init";
     options_lua := "-- options";
     lazy_lua := "-- lazy";
     keymaps_lua := "-- keymaps";
     lsp_lua := "-- lsp";
     completion_lua := "-- completion";
     treesitter_lua := "-- treesitter";
     telescope_lua := "-- telescope";
     ui_lua := "-- ui";
     deno_json := "{}";
     main_ts := "// main";
     main_test_ts := "// test" |}.

Definition home_env (name : string) : option string :=
  if String.eqb name "HOME" then Some "/home/u" else None.


Definition all_tools (cmd : string) (args : list string) : probe :=
  Exited true.


Definition this : NeovimSetup := instance texts "/home/u" false.

Definition old_config : Fs.node := Fs.Dir [("a.txt", Fs.File "mine")].


Definition tree (config : list (string * Fs.node)) : Fs.node :=
  Fs.Dir [("home", Fs.Dir [("u", Fs.Dir [(".config", Fs.Dir config)])])].

Definition world_of (n : Fs.node) (d : Fs.path) : world :=
  {| fs := n; cwd := Some d; env := home_env; tools := all_tools;
     faults := []; trace := [] |}.

(** No configuration yet. *)
Definition fresh : world := world_of (tree []) ["home"; "u"].

(** A configuration, no backup. *)
Definition configured : world :=
  world_of (tree [("nvim", old_config)]) ["home"; "u"].







(** An entry, and one that needs the first one's file as a directory. *)
Definition entry_a : ConfigFile :=
  {| path := "a.lua"; content := "first"; description := "one" |}.

Definition entry_below_a : ConfigFile :=
  {| path := "a.lua/b.lua"; content := "second"; description := "two" |}.

Definition entry_c : ConfigFile :=
  {| path := "c.lua"; content := "third"; description := "three" |}.

End Scenario.

(* ================================================================== *)
(** ** Facts about the directory tree *)

Module FsFacts.
Import Fs.
#[local] Open Scope list_scope.

Lemma entry_set_same x o es : entry x (set_entry x o es) = o.
Proof.
  induction es as [|[y m] es IH]; simpl.
  - destruct o; simpl; [rewrite String.eqb_refl|]; reflexivity.
  - destruct (String.eqb x y) eqn:E.
    + destruct o; simpl; [rewrite E; reflexivity | exact IH].
    + simpl. rewrite E. exact IH.
Qed.

Lemma entry_set_other x y o es :
  String.eqb y x = false -> entry y (set_entry x o es) = entry y es.
Proof.
  intros N. induction es as [|[z m] es IH]; simpl.
  - destruct o; simpl; [rewrite N|]; reflexivity.
  - destruct (String.eqb x z) eqn:E.
    + apply String.eqb_eq in E. subst z. rewrite N.
      destruct o; simpl; [rewrite N; reflexivity | exact IH].
    + simpl. destruct (String.eqb y z); [reflexivity | exact IH].
Qed.

Lemma get_none p : get None p = None.
Proof. destruct p; reflexivity. Qed.

Lemma get_app o p r : get o (p ++ r) = get (get o p) r.
Proof.
  revert o. induction p as [|x p IH]; intros o; simpl; [reflexivity|].
  destruct o as [[c|es]|]; try (rewrite get_none; reflexivity).
  apply IH.
Qed.


Lemma stat_ok_get o p n : stat o p = Ok n <-> get o p = Some n.
Proof.
  revert o. induction p as [|x p IH]; intros o; simpl.
  - destruct o; split; congruence.
  - destruct o as [[c|es]|]; try (split; discriminate). apply IH.
Qed.

Lemma stat_err_get o p e : stat o p = Err e -> get o p = None.
Proof.
  revert o. induction p as [|x p IH]; intros o; simpl.
  - destruct o; [discriminate | reflexivity].
  - destruct o as [[c|es]|]; try reflexivity. apply IH.
Qed.

(** *** Prefixes *)

Lemma is_prefix_app p r : is_prefix p (p ++ r) = true.
Proof.
  induction p as [|x p IH]; simpl; [reflexivity|].
  rewrite String.eqb_refl. exact IH.
Qed.

Lemma is_prefix_split p q :
  is_prefix p q = true -> exists r, q = p ++ r.
Proof.
  revert q. induction p as [|x p IH]; intros q H; simpl in *.
  - exists q. reflexivity.
  - destruct q as [|y q]; [discriminate|].
    apply andb_true_iff in H as [E H]. apply String.eqb_eq in E. subst y.
    destruct (IH q H) as [r ->]. exists r. reflexivity.
Qed.

Lemma is_prefix_refl p : is_prefix p p = true.
Proof. rewrite <- (app_nil_r p) at 2. apply is_prefix_app. Qed.

Lemma strip_some p q r : strip p q = Some r -> q = p ++ r.
Proof.
  revert q. induction p as [|x p IH]; intros q H; simpl in *.
  - congruence.
  - destruct q as [|y q]; [discriminate|].
    destruct (String.eqb x y) eqn:E; [|discriminate].
    apply String.eqb_eq in E. subst y. rewrite (IH q H). reflexivity.
Qed.

Lemma strip_none p q : strip p q = None -> is_prefix p q = false.
Proof.
  revert q. induction p as [|x p IH]; intros q H; simpl in *.
  - discriminate.
  - destruct q as [|y q]; [reflexivity|].
    destruct (String.eqb x y); [apply IH; exact H | reflexivity].
Qed.

(** *** [focus] *)

Lemma focus_app mk p r k o :
  focus mk (p ++ r) k o = focus mk p (focus mk r k) o.
Proof.
  revert o. induction p as [|x p IH]; intros o; simpl; [reflexivity|].
  destruct o as [[c|es]|]; try reflexivity.
  - rewrite IH. reflexivity.
  - destruct mk; [rewrite IH|]; reflexivity.
Qed.

(** What [k] saw and what it answered is what is found at [p] before
    and after. *)
Lemma focus_at mk p k o o' :
  focus mk p k o = Ok o' ->
  exists r, k (get o p) = Ok r /\ get o' p = r.
Proof.
  revert o o'. induction p as [|x p IH]; intros o o' H; cbn [focus get] in *.
  - exists o'. split; [exact H | reflexivity].
  - destruct o as [[c|es]|]; try discriminate.
    + destruct (focus mk p k (entry x es)) as [o1|e] eqn:F; [|discriminate].
      cbn [res_bind] in H. injection H as <-.
      destruct (IH _ _ F) as [r [K G]]. exists r. split; [exact K|].
      cbn [get]. rewrite entry_set_same. exact G.
    + destruct mk; [|discriminate].
      destruct (focus true p k None) as [o1|e] eqn:F; [|discriminate].
      cbn [res_bind] in H. injection H as <-.
      destruct (IH _ _ F) as [r [K G]]. rewrite get_none in K.
      exists r. split; [exact K|].
      pose proof (entry_set_same x o1 []) as S. cbn [set_entry] in S.
      cbn [get]. rewrite S. exact G.
Qed.

(** Paths off the way from the root to [p] and not below [p] see no
    change. *)
Lemma focus_frame mk p k o o' q :
  focus mk p k o = Ok o' ->
  is_prefix p q = false -> is_prefix q p = false ->
  get o' q = get o q.
Proof.
  revert o o' q. induction p as [|x p IH]; intros o o' q H P Q;
    cbn [focus get is_prefix] in *.
  - discriminate.
  - destruct q as [|y q]; [discriminate|]. simpl in P, Q.
    destruct o as [[c|es]|]; try discriminate.
    + destruct (focus mk p k (entry x es)) as [o1|e] eqn:F; [|discriminate].
      cbn [res_bind] in H. injection H as <-. cbn [get].
      destruct (String.eqb y x) eqn:E.
      * apply String.eqb_eq in E. subst y. rewrite String.eqb_refl in P.
        simpl in P. rewrite entry_set_same. apply (IH _ _ _ F); assumption.
      * rewrite entry_set_other by exact E. reflexivity.
    + destruct mk; [|discriminate].
      destruct (focus true p k None) as [o1|e] eqn:F; [|discriminate].
      cbn [res_bind] in H. injection H as <-. cbn [get].
      destruct (String.eqb y x) eqn:E.
      * apply String.eqb_eq in E. subst y. rewrite String.eqb_refl in P.
        simpl in P. pose proof (entry_set_same x o1 []) as S.
        cbn [set_entry] in S. rewrite S.
        rewrite (IH _ _ _ F) by assumption. apply get_none.
      * pose proof (entry_set_other x y o1 [] E) as S.
        cbn [set_entry entry] in S. rewrite S. apply get_none.
Qed.

Lemma at_root_ok f n n' : at_root f n = Ok n' <-> f (Some n) = Ok (Some n').
Proof.
  unfold at_root. destruct (f (Some n)) as [[m|]|e]; split; congruence.
Qed.

(** Two paths that part ways stay parted however they go on. *)
Lemma is_prefix_parted p q r :
  is_prefix p q = false -> is_prefix q p = false ->
  is_prefix p (q ++ r) = false.
Proof.
  revert q. induction p as [|x p IH]; intros q P Q; simpl in *.
  - discriminate.
  - destruct q as [|y q]; [discriminate|]. simpl in *.
    destruct (String.eqb x y) eqn:E; [|reflexivity]. simpl in *.
    apply String.eqb_eq in E. subst y. rewrite String.eqb_refl in Q.
    apply IH; assumption.
Qed.

(** *** The operations *)



(** [ensureDir p] changes nothing outside the way down to [p]. *)
Lemma mkdir_p_frame p n n' q :
  mkdir_p p n = Ok n' -> is_prefix q p = false ->
  get (Some n') q = get (Some n) q.
Proof.
  unfold mkdir_p. rewrite at_root_ok. intros H Q.
  destruct (is_prefix p q) eqn:P.
  - apply is_prefix_split in P as [r ->].
    destruct (focus_at _ _ _ _ _ H) as [o [K G]].
    rewrite !get_app, G.
    destruct r as [|x r]; [rewrite app_nil_r, is_prefix_refl in Q; discriminate|].
    destruct (get (Some n) p) as [[c|es]|]; inversion K; subst;
      cbn [get entry]; rewrite ?get_none; reflexivity.
  - eapply focus_frame; eassumption.
Qed.

(** [ensureDir] never touches a regular file. *)
Lemma mkdir_p_keeps_file p n n' q c :
  mkdir_p p n = Ok n' -> get (Some n) q = Some (File c) ->
  get (Some n') q = Some (File c).
Proof.
  intros H F. destruct (is_prefix q p) eqn:Q.
  - exfalso. apply is_prefix_split in Q as [r ->].
    unfold mkdir_p in H. rewrite at_root_ok, focus_app in H.
    destruct (focus_at _ _ _ _ _ H) as [o [K _]]. rewrite F in K.
    destruct r; discriminate.
  - rewrite (mkdir_p_frame _ _ _ _ H Q). exact F.
Qed.

Lemma write_file_at p c n n' :
  write_file p c n = Ok n' -> get (Some n') p = Some (File c).
Proof.
  unfold write_file. rewrite at_root_ok. intros H.
  destruct (focus_at _ _ _ _ _ H) as [r [K G]]. rewrite G.
  destruct (get (Some n) p) as [[c0|es]|]; inversion K; reflexivity.
Qed.

Lemma write_file_frame p c n n' q :
  write_file p c n = Ok n' -> is_prefix q p = false ->
  get (Some n') q = get (Some n) q.
Proof.
  unfold write_file. rewrite at_root_ok. intros H Q.
  destruct (is_prefix p q) eqn:P.
  - apply is_prefix_split in P as [r ->].
    destruct (focus_at _ _ _ _ _ H) as [o [K G]].
    rewrite !get_app, G.
    destruct r as [|x r]; [rewrite app_nil_r, is_prefix_refl in Q; discriminate|].
    destruct (get (Some n) p) as [[c0|es]|]; inversion K; subst;
      cbn [get entry]; rewrite ?get_none; reflexivity.
  - eapply focus_frame; eassumption.
Qed.

(** A write leaves every other regular file as it is. *)
Lemma write_file_keeps_file p c n n' q c0 :
  write_file p c n = Ok n' -> get (Some n) q = Some (File c0) -> q <> p ->
  get (Some n') q = Some (File c0).
Proof.
  intros H F N. destruct (is_prefix q p) eqn:Q.
  - exfalso. apply is_prefix_split in Q as [r ->].
    unfold write_file in H. rewrite at_root_ok, focus_app in H.
    destruct (focus_at _ _ _ _ _ H) as [o [K _]]. rewrite F in K.
    destruct r; [apply N; symmetry; apply app_nil_r | discriminate].
  - rewrite (write_file_frame _ _ _ _ _ H Q). exact F.
Qed.

Lemma remove_all_spec p n n' :
  remove_all p n = Ok n' ->
  get (Some n) p <> None /\ get (Some n') p = None
  /\ forall q, is_prefix p q = false -> is_prefix q p = false ->
               get (Some n') q = get (Some n) q.
Proof.
  unfold remove_all. rewrite at_root_ok. intros H.
  destruct (focus_at _ _ _ _ _ H) as [r [K G]].
  split; [|split].
  - destruct (get (Some n) p); [discriminate | inversion K].
  - rewrite G. destruct (get (Some n) p); inversion K. reflexivity.
  - intros q P Q. eapply focus_frame; eassumption.
Qed.

(** Renaming onto a free name next to the source: the subtree moves as
    it is, and nothing else changes. *)
Lemma rename_fresh src dst n n' :
  rename src dst n = Ok n' ->
  is_prefix src dst = false -> is_prefix dst src = false ->
  get (Some n) dst = None ->
  get (Some n) src <> None
  /\ get (Some n') dst = get (Some n) src
  /\ get (Some n') src = None
  /\ forall q, is_prefix src q = false -> is_prefix q src = false ->
               is_prefix dst q = false -> is_prefix q dst = false ->
               get (Some n') q = get (Some n) q.
Proof.
  unfold rename. intros H P Q A.
  destruct (stat (Some n) src) as [x|e] eqn:S; [|discriminate].
  apply stat_ok_get in S. rewrite S.
  destruct (list_eq_dec string_dec src dst) as [->|N];
    [rewrite is_prefix_refl in P; discriminate|].
  rewrite P, A in H.
  assert (H' : res_bind (at_root (focus false src (fun _ => Ok None)) n)
                 (at_root (focus false dst (fun _ => Ok (Some x)))) = Ok n')
    by (destruct x; exact H).
  clear H. destruct (at_root (focus false src (fun _ => Ok None)) n)
    as [n1|e] eqn:R1; [|discriminate].
  cbn [res_bind] in H'. rewrite at_root_ok in R1, H'.
  destruct (focus_at _ _ _ _ _ R1) as [r1 [K1 G1]].
  destruct (focus_at _ _ _ _ _ H') as [r2 [K2 G2]].
  cbv beta in K1, K2. injection K1 as <-. injection K2 as <-.
  split; [discriminate|]. split; [exact G2|]. split.
  - rewrite (focus_frame _ _ _ _ _ _ H' Q P). exact G1.
  - intros q P1 Q1 P2 Q2.
    rewrite (focus_frame _ _ _ _ _ _ H' P2 Q2).
    apply (focus_frame _ _ _ _ _ _ R1 P1 Q1).
Qed.

End FsFacts.

(* ================================================================== *)
(** ** Facts about the runtime *)

Module RtFacts.
Import Rt Script Props FsFacts.
#[local] Open Scope list_scope.

Lemma bind_return {A B} (m : M A) (k : A -> M B) w b w' :
  bind m k w = (Return b, w') ->
  exists a w1, m w = (Return a, w1) /\ k a w1 = (Return b, w').
Proof.
  unfold bind. destruct (m w) as [[a|e|c] w1]; intros H; try discriminate.
  exists a, w1. split; [reflexivity | exact H].
Qed.

Lemma bind_cases {A B} (m : M A) (k : A -> M B) w o w' :
  bind m k w = (o, w') ->
  (exists a w1, m w = (Return a, w1) /\ k a w1 = (o, w'))
  \/ (exists e, m w = (Throw e, w') /\ o = Throw e)
  \/ (exists c, m w = (Exit c, w') /\ o = Exit c).
Proof.
  unfold bind. destruct (m w) as [[a|e|c] w1]; intros H.
  - left. exists a, w1. split; [reflexivity | exact H].
  - right. left. exists e. inversion H. split; reflexivity.
  - right. right. exists c. inversion H. split; reflexivity.
Qed.

Lemma next_fault_spec w :
  let (f, w1) := next_fault w in
  fs w1 = fs w /\ cwd w1 = cwd w /\ env w1 = env w /\ tools w1 = tools w
  /\ trace w1 = trace w /\ faults w1 = tl (faults w)
  /\ f = match faults w with f :: _ => f | [] => None end.
Proof.
  unfold next_fault. destruct (faults w) as [|f rest] eqn:E; simpl;
    repeat split; try reflexivity. exact E.
Qed.

Lemma fs_call_return e op mv w a w' :
  fs_call e op mv w = (Return a, w') ->
  op (fs w) = Fs.Ok (fs w') /\ cwd w' = mv (cwd w) /\ step e w w'.
Proof.
  unfold fs_call. pose proof (next_fault_spec (emit e w)) as N.
  destruct (next_fault (emit e w)) as [f w1].
  destruct N as (Nf & Nc & Ne & Nt & Ntr & Nfa & _). simpl in *.
  destruct f; [discriminate|].
  destruct (op (fs w1)) as [n|err] eqn:O; [|discriminate].
  intros H. inversion H; subst. simpl.
  rewrite <- Nf, Nc. split; [exact O|]. split; [reflexivity|].
  constructor; simpl; assumption.
Qed.

Lemma fs_call_any e op mv w o w' :
  fs_call e op mv w = (o, w') ->
  step e w w'
  /\ (forall c, o <> Exit c)
  /\ ((forall a, o <> Return a) -> fs w' = fs w /\ cwd w' = cwd w).
Proof.
  unfold fs_call. pose proof (next_fault_spec (emit e w)) as N.
  destruct (next_fault (emit e w)) as [f w1].
  destruct N as (Nf & Nc & Ne & Nt & Ntr & Nfa & _). simpl in *.
  destruct f.
  - intros H. inversion H; subst. split; [constructor; assumption|].
    split; [discriminate|]. intros _. split; assumption.
  - destruct (op (fs w1)) as [n|err] eqn:O; intros H; inversion H; subst.
    + split; [constructor; simpl; assumption|]. split; [discriminate|].
      intros C. exfalso. apply (C tt). reflexivity.
    + split; [constructor; assumption|]. split; [discriminate|].
      intros _. split; assumption.
Qed.

Lemma exists_any p w o w' :
  exists_ p w = (o, w') ->
  fs w' = fs w /\ cwd w' = cwd w /\ step (Exists p) w w'
  /\ (forall c, o <> Exit c)
  /\ (o = Return true -> Fs.get (Some (fs w)) p <> None)
  /\ (o = Return false -> Fs.get (Some (fs w)) p = None).
Proof.
  unfold exists_. pose proof (next_fault_spec (emit (Exists p) w)) as N.
  destruct (next_fault (emit (Exists p) w)) as [f w1].
  destruct N as (Nf & Nc & Ne & Nt & Ntr & Nfa & _). simpl in *.
  assert (S : step (Exists p) w w1) by (constructor; assumption).
  destruct f.
  - intros H. inversion H; subst. repeat split; try assumption; discriminate.
  - rewrite Nf. destruct (Fs.stat (Some (fs w)) p) as [n|err] eqn:St.
    + intros H. inversion H; subst.
      apply stat_ok_get in St. repeat split; try assumption; try discriminate.
      rewrite St. discriminate.
    + apply stat_err_get in St.
      destruct err; intros H; inversion H; subst;
        repeat split; try assumption; try discriminate; intros _; exact St.
Qed.

(** *** [join] *)

Lemma walk_plain segs acc :
  forallb plain segs = true -> walk segs acc = rev acc ++ segs.
Proof.
  revert acc. induction segs as [|s segs IH]; intros acc H; simpl in *.
  - symmetry. apply app_nil_r.
  - apply andb_true_iff in H as [P H]. unfold plain in P.
    apply andb_true_iff in P as [P P3]. apply andb_true_iff in P as [P1 P2].
    apply negb_true_iff in P1, P2, P3. rewrite P1, P2, P3.
    rewrite (IH _ H). simpl. rewrite <- app_assoc. reflexivity.
Qed.

Lemma join_plain base parts :
  forallb plain (flat_map segments parts) = true ->
  join base parts = base ++ flat_map segments parts.
Proof.
  intros H. unfold join. rewrite (walk_plain _ _ H), rev_involutive.
  reflexivity.
Qed.

End RtFacts.

(* ================================================================== *)
(** ** The backup step *)

Module BackupFacts.
Import Rt Script Props FsFacts RtFacts.
#[local] Open Scope list_scope.

Tactic Notation "inv_bind" hyp(H) "as" ident(a) ident(w) ident(S) :=
  apply bind_return in H as (a & w & S & H).

Ltac inv_log H :=
  unfold console_log, ret in H; inversion H; subst; clear H.

Lemma instance_dirs texts homeDir no_sample :
  configDir (instance texts homeDir no_sample)
  = parse homeDir ++ [".config"; "nvim"]
  /\ backupDir (instance texts homeDir no_sample)
     = parse homeDir ++ [".config"; "nvim.backup"].
Proof.
  destruct no_sample; simpl; split;
    (rewrite join_plain by reflexivity; reflexivity).
Qed.

Lemma is_prefix_cancel base p q :
  Fs.is_prefix (base ++ p) (base ++ q) = Fs.is_prefix p q.
Proof.
  induction base as [|x base IH]; simpl; [reflexivity|].
  rewrite String.eqb_refl. exact IH.
Qed.

(** The target and the backup directory are different names in one
    directory: neither lies in the other. *)
Lemma instance_parted texts homeDir no_sample :
  Fs.is_prefix (configDir (instance texts homeDir no_sample))
    (backupDir (instance texts homeDir no_sample)) = false
  /\ Fs.is_prefix (backupDir (instance texts homeDir no_sample))
       (configDir (instance texts homeDir no_sample)) = false.
Proof.
  destruct (instance_dirs texts homeDir no_sample) as [-> ->].
  rewrite !is_prefix_cancel. split; reflexivity.
Qed.

(** The step when the target exists and the step returns. *)
Lemma backup_present this w w' :
  Fs.is_prefix (configDir this) (backupDir this) = false ->
  Fs.is_prefix (backupDir this) (configDir this) = false ->
  backupExistingConfig this w = (Return tt, w') ->
  at_path w (configDir this) <> None ->
  exists n1 c1,
    match at_path w (backupDir this) with
    | Some _ => Fs.remove_all (backupDir this) (fs w) = Fs.Ok n1
                /\ c1 = cwd_after_remove (backupDir this) (cwd w)
    | None => n1 = fs w /\ c1 = cwd w
    end
    /\ Fs.get (Some n1) (backupDir this) = None
    /\ Fs.get (Some n1) (configDir this) = at_path w (configDir this)
    /\ Fs.rename (configDir this) (backupDir this) n1 = Fs.Ok (fs w')
    /\ cwd w' = cwd_after_rename (configDir this) (backupDir this) c1
    /\ env w' = env w /\ tools w' = tools w
    /\ trace w' = trace w
         ++ backup_calls this
              (match at_path w (backupDir this) with
               | Some _ => true | None => false end).
Proof.
  intros P Q H Pres. unfold backupExistingConfig, at_path in *.
  inv_bind H as present w1 S1.
  destruct (exists_any _ _ _ _ S1) as (F1 & C1 & [E1 T1 Tr1] & _ & Y1 & N1).
  destruct present; [|exfalso; apply Pres, N1; reflexivity].
  inv_bind H as u2 w2 S2. inv_log S2.
  inv_bind H as old w3 S3.
  destruct (exists_any _ _ _ _ S3) as (F3 & C3 & [E3 T3 Tr3] & _ & Y3 & N3).
  simpl in F3, C3, E3, T3, Tr3, Y3, N3.
  inv_bind H as u4 w4 S4. inv_bind H as u5 w5 S5. inv_log H.
  destruct (fs_call_return _ _ _ _ _ _ S5) as (R & CR & [E5 T5 Tr5]).
  destruct old.
  - inv_bind S4 as u6 w6 S6. inv_log S6.
    destruct (fs_call_return _ _ _ _ _ _ S4) as (Rm & CRm & [E4 T4 Tr4]).
    simpl in Rm, CRm, E4, T4, Tr4.
    destruct (remove_all_spec _ _ _ Rm) as (_ & Gone & Fr).
    specialize (Y3 eq_refl). rewrite F1 in Y3.
    rewrite F3, F1 in Rm, Fr. rewrite C3, C1 in CRm.
    exists (fs w4), (cwd w4).
    destruct (Fs.get (Some (fs w)) (backupDir this)) eqn:B; [|contradiction].
    split; [split; assumption|].
    split; [exact Gone|]. split; [apply Fr; assumption|].
    split; [exact R|]. split; [exact CR|].
    split; [simpl; congruence|]. split; [simpl; congruence|].
    simpl. rewrite Tr5, Tr4, Tr3, Tr1.
    unfold backup_calls. rewrite <- !app_assoc. reflexivity.
  - inv_log S4. specialize (N3 eq_refl). rewrite F1 in N3.
    rewrite F3, F1 in R. rewrite C3, C1 in CR.
    exists (fs w), (cwd w). rewrite N3.
    split; [split; reflexivity|]. split; [reflexivity|]. split; [reflexivity|].
    split; [exact R|]. split; [exact CR|].
    split; [simpl; congruence|]. split; [simpl; congruence|].
    simpl. rewrite Tr5, Tr3, Tr1.
    unfold backup_calls. rewrite <- !app_assoc. reflexivity.
Qed.

End BackupFacts.

(* ================================================================== *)
(** ** What a method leaves untouched *)

Module FrameFacts.
Import Rt Script Props FsFacts RtFacts.
#[local] Open Scope list_scope.





















End FrameFacts.

(* ================================================================== *)
(** ** What the steps of the script leave untouched *)

Module StepFrames.
Import Rt Script Props FsFacts RtFacts BackupFacts FrameFacts.
#[local] Open Scope list_scope.











End StepFrames.

(* ================================================================== *)
(** ** Materialising the entries *)

Module InstallFacts.
Import Rt Script Props FsFacts RtFacts BackupFacts FrameFacts StepFrames.
#[local] Open Scope list_scope.








End InstallFacts.

(* ================================================================== *)
(** ** The whole run *)

Module RunFacts.
Import Rt Script Props FsFacts RtFacts BackupFacts FrameFacts StepFrames
  InstallFacts.
#[local] Open Scope list_scope.




(** *** Where the sample project goes *)







(** *** After the backup step *)


End RunFacts.

(* ================================================================== *)
(** ** The backup step inside the run *)

Module BackupRun.
Import Rt Script Props FsFacts RtFacts BackupFacts FrameFacts StepFrames
  InstallFacts RunFacts.
#[local] Open Scope list_scope.

(** Without a target the step only asks whether there is one. *)
Lemma backup_absent this w o w' :
  backupExistingConfig this w = (o, w') ->
  at_path w (configDir this) = None ->
  fs w' = fs w /\ cwd w' = cwd w
  /\ trace w' = trace w ++ [Exists (configDir this)]
  /\ (forall code, o <> Exit code).
Proof.
  intros H A. unfold backupExistingConfig in H.
  destruct (bind_cases _ _ _ _ _ H)
    as [(present & w1 & S1 & K)|[(e & S1 & ->)|(x & S1 & ->)]];
    destruct (exists_any _ _ _ _ S1) as (F & C & [_ _ Tr] & NoExit & Y & _).
  - destruct present; [exfalso; apply (Y eq_refl); exact A|].
    inversion K; subst. repeat split; try assumption. discriminate.
  - repeat split; try assumption. discriminate.
  - exfalso. apply (NoExit x). reflexivity.
Qed.

Lemma strip_prefix p q r : Fs.strip p q = Some r -> Fs.is_prefix p q = true.
Proof. intros H. rewrite (strip_some _ _ _ H). apply is_prefix_app. Qed.

(** Wherever the process stood, after the rename it is not in the
    (vanished) target. *)
Lemma cwd_after_rename_outside src dst c :
  Fs.is_prefix src dst = false -> Fs.is_prefix dst src = false ->
  outside src (cwd_after_rename src dst c).
Proof.
  intros P Q. destruct c as [d|]; simpl; [|exact I].
  destruct (Fs.strip src d) as [r|] eqn:S; simpl.
  - apply is_prefix_parted; assumption.
  - destruct (Fs.is_prefix dst d); simpl; [exact I|].
    apply strip_none. exact S.
Qed.

(** A process that was outside the target is outside the new backup. *)
Lemma cwd_after_rename_outside_dst src dst c :
  outside src c -> outside dst (cwd_after_rename src dst c).
Proof.
  destruct c as [d|]; simpl; [|trivial]. intros O.
  destruct (Fs.strip src d) as [r|] eqn:S.
  - apply strip_prefix in S. congruence.
  - destruct (Fs.is_prefix dst d) eqn:E; simpl; [exact I | exact E].
Qed.

Lemma cwd_after_remove_outside p q c :
  outside q c -> outside q (cwd_after_remove p c).
Proof.
  destruct c as [d|]; simpl; [|trivial]. intros O.
  destruct (Fs.is_prefix p d); simpl; [exact I | exact O].
Qed.

(** A directory that exists is not inside a path that does not. *)
Lemma valid_cwd_outside w p :
  valid_cwd w -> at_path w p = None -> outside p (cwd w).
Proof.
  unfold valid_cwd, outside, at_path. destruct (cwd w) as [d|]; [|trivial].
  intros V A. destruct (Fs.is_prefix p d) eqn:E; [|reflexivity].
  apply is_prefix_split in E as [r ->]. rewrite get_app, A, get_none in V.
  discriminate.
Qed.

(** The state the backup step returns in. *)
Lemma backup_return_state texts homeDir no_sample w w' :
  backupExistingConfig (instance texts homeDir no_sample) w = (Return tt, w') ->
  (at_path w (configDir (instance texts homeDir no_sample)) = None ->
   valid_cwd w) ->
  at_path w' (configDir (instance texts homeDir no_sample)) = None
  /\ outside (configDir (instance texts homeDir no_sample)) (cwd w')
  /\ (at_path w (configDir (instance texts homeDir no_sample)) <> None ->
      at_path w' (backupDir (instance texts homeDir no_sample))
      = at_path w (configDir (instance texts homeDir no_sample))
      /\ (outside (configDir (instance texts homeDir no_sample)) (cwd w) ->
          outside (backupDir (instance texts homeDir no_sample)) (cwd w'))).
Proof.
  intros H V. destruct (instance_parted texts homeDir no_sample) as [P Q].
  destruct (at_path w (configDir (instance texts homeDir no_sample)))
    as [n|] eqn:A.
  - assert (Pres : at_path w (configDir (instance texts homeDir no_sample))
                   <> None) by (rewrite A; discriminate).
    destruct (backup_present _ _ _ P Q H Pres)
      as (n1 & c1 & Old & Gone & Same & R & C & _).
    destruct (rename_fresh _ _ _ _ R P Q Gone) as (_ & Moved & Away & _).
    unfold at_path. rewrite Away, Moved, Same, C. split; [reflexivity|].
    split; [apply cwd_after_rename_outside; assumption|]. intros _.
    split; [exact A|]. intros O. apply cwd_after_rename_outside_dst.
    destruct (at_path w (backupDir (instance texts homeDir no_sample)));
      destruct Old as [_ ->]; [apply cwd_after_remove_outside|]; exact O.
  - destruct (backup_absent _ _ _ _ H A) as (F & C & _).
    unfold at_path in *. rewrite F, C. split; [exact A|].
    split; [apply valid_cwd_outside; [apply V; reflexivity | exact A]|].
    intros N. contradiction.
Qed.


End BackupRun.

(* ================================================================== *)
(** ** The backup step completes *)

Module BackupProgress.
Import Rt Script Props FsFacts RtFacts BackupFacts.
#[local] Open Scope list_scope.

(** Working on something that exists succeeds when the action does. *)
Lemma focus_existing mk p K o n r :
  Fs.get o p = Some n -> K (Some n) = Fs.Ok r ->
  exists o', Fs.focus mk p K o = Fs.Ok o'.
Proof.
  revert o. induction p as [|x p IH]; intros o G E; cbn [Fs.focus Fs.get] in *.
  - subst o. exists r. exact E.
  - destruct o as [[c|es]|]; try discriminate.
    destruct (IH _ G E) as [o1 ->]. eexists. reflexivity.
Qed.

(** Below the root the result is never the empty tree. *)
Lemma focus_below_root mk x p K o o' :
  Fs.focus mk (x :: p) K o = Fs.Ok o' -> exists n, o' = Some n.
Proof.
  cbn [Fs.focus]. destruct o as [[c|es]|]; try discriminate.
  - destruct (Fs.focus mk p K (Fs.entry x es)); [|discriminate].
    intros H. inversion H. eexists. reflexivity.
  - destruct mk; [|discriminate].
    destruct (Fs.focus true p K None); [|discriminate].
    intros H. inversion H. eexists. reflexivity.
Qed.

(** Linking or unlinking a name in an existing directory succeeds. *)
Lemma at_child_ok base y K n es r :
  Fs.get (Some n) base = Some (Fs.Dir es) ->
  K (Fs.entry y es) = Fs.Ok r ->
  exists n', Fs.at_root (Fs.focus false (base ++ [y]) K) n = Fs.Ok n'
             /\ Fs.get (Some n') base = Some (Fs.Dir (Fs.set_entry y r es)).
Proof.
  intros G E.
  assert (E' : Fs.focus false [y] K (Some (Fs.Dir es))
               = Fs.Ok (Some (Fs.Dir (Fs.set_entry y r es)))).
  { cbn [Fs.focus]. rewrite E. reflexivity. }
  destruct (focus_existing false base _ _ _ _ G E') as [o' F].
  assert (F' : Fs.focus false (base ++ [y]) K (Some n) = Fs.Ok o')
    by (rewrite focus_app; exact F).
  assert (S : exists n', o' = Some n').
  { destruct (base ++ [y]) as [|x0 p0] eqn:Z; [destruct base; discriminate|].
    apply (focus_below_root _ _ _ _ _ _ F'). }
  destruct S as [n' ->]. exists n'. split; [apply at_root_ok; exact F'|].
  destruct (focus_at _ _ _ _ _ F) as (r' & K' & G'). rewrite G in K'.
  rewrite E' in K'. injection K' as <-. exact G'.
Qed.

Lemma get_child base y n m :
  Fs.get (Some n) (base ++ [y]) = Some m ->
  exists es, Fs.get (Some n) base = Some (Fs.Dir es)
             /\ Fs.entry y es = Some m.
Proof.
  rewrite get_app. destruct (Fs.get (Some n) base) as [[c|es]|];
    cbn [Fs.get]; try discriminate.
  intros E. exists es. split; [reflexivity | exact E].
Qed.

(** A name missing from an existing directory is reported as not
    found. *)
Lemma stat_child_absent base y o es :
  Fs.get o base = Some (Fs.Dir es) ->
  Fs.get o (base ++ [y]) = None ->
  Fs.stat o (base ++ [y]) = Fs.Err Fs.ENOENT.
Proof.
  revert o. induction base as [|x base IH]; intros o D A;
    cbn [app Fs.stat Fs.get] in *.
  - subst o. destruct (Fs.entry y es); [discriminate | reflexivity].
  - destruct o as [[c|es']|]; try discriminate. apply IH; assumption.
Qed.

Lemma remove_all_ok base y n m :
  Fs.get (Some n) (base ++ [y]) = Some m ->
  exists n', Fs.remove_all (base ++ [y]) n = Fs.Ok n'.
Proof.
  intros G. destruct (get_child _ _ _ _ G) as (es & D & E).
  destruct (at_child_ok base y Fs.unlink n es None D) as (n' & R & _).
  - rewrite E. reflexivity.
  - exists n'. exact R.
Qed.

(** Renaming onto a free name in the same directory succeeds. *)
Lemma rename_ok base x y n m :
  String.eqb x y = false ->
  Fs.get (Some n) (base ++ [x]) = Some m ->
  Fs.get (Some n) (base ++ [y]) = None ->
  exists n', Fs.rename (base ++ [x]) (base ++ [y]) n = Fs.Ok n'.
Proof.
  intros N G A. unfold Fs.rename.
  rewrite (proj2 (stat_ok_get _ _ _) G).
  destruct (list_eq_dec string_dec (base ++ [x]) (base ++ [y])) as [E|_].
  { apply app_inv_head in E. injection E as ->.
    rewrite String.eqb_refl in N. discriminate. }
  rewrite is_prefix_cancel. cbn [Fs.is_prefix]. rewrite N. cbn [andb].
  rewrite A.
  destruct (get_child _ _ _ _ G) as (es & D & E).
  destruct (at_child_ok base x (fun _ => Fs.Ok None) n es None D eq_refl)
    as (n1 & R1 & D1).
  destruct (at_child_ok base y (fun _ => Fs.Ok (Some m)) n1 _ (Some m) D1
              eq_refl) as (n2 & R2 & _).
  exists n2. destruct m; rewrite R1; exact R2.
Qed.

Lemma exists_no_fault p w :
  faults w = [] ->
  exists_ p w
  = match Fs.stat (Some (fs w)) p with
    | Fs.Ok _ => (Return true, emit (Exists p) w)
    | Fs.Err Fs.ENOENT => (Return false, emit (Exists p) w)
    | Fs.Err e => (Throw (OsError e), emit (Exists p) w)
    end.
Proof.
  intros F. unfold exists_, next_fault. cbn [emit faults]. rewrite F.
  reflexivity.
Qed.

Lemma fs_call_no_fault e op mv w :
  faults w = [] ->
  fs_call e op mv w
  = match op (fs w) with
    | Fs.Ok n => (Return tt, with_fs n (mv (cwd w)) (emit e w))
    | Fs.Err err => (Throw (OsError err), emit e w)
    end.
Proof.
  intros F. unfold fs_call, next_fault. cbn [emit faults]. rewrite F.
  reflexivity.
Qed.

(** With no fault pending, the backup step of an existing target
    returns. *)
Lemma backup_step_returns texts homeDir no_sample w :
  faults w = [] ->
  at_path w (configDir (instance texts homeDir no_sample)) <> None ->
  exists w',
    backupExistingConfig (instance texts homeDir no_sample) w
    = (Return tt, w').
Proof.
  intros F T. unfold backupExistingConfig, at_path in *.
  destruct (instance_dirs texts homeDir no_sample) as [Ec Eb].
  rewrite Ec, Eb in *.
  change [".config"; "nvim"] with ([".config"] ++ ["nvim"]) in *.
  change [".config"; "nvim.backup"] with ([".config"] ++ ["nvim.backup"]) in *.
  rewrite !app_assoc in *.
  set (base := parse homeDir ++ [".config"]) in *.
  destruct (Fs.get (Some (fs w)) (base ++ ["nvim"])) as [m|] eqn:G;
    [clear T | contradiction].
  destruct (get_child _ _ _ _ G) as (es & D & E).
  unfold bind at 1. rewrite (exists_no_fault _ _ F).
  rewrite (proj2 (stat_ok_get _ _ _) G).
  unfold bind at 1. cbn [console_log].
  unfold bind at 1. rewrite exists_no_fault by exact F. cbn [emit fs].
  destruct (Fs.get (Some (fs w)) (base ++ ["nvim.backup"])) as [old|] eqn:B.
  - rewrite (proj2 (stat_ok_get _ _ _) B).
    destruct (remove_all_ok _ _ _ _ B) as (n1 & Rm).
    destruct (remove_all_spec _ _ _ Rm) as (_ & Gone & Fr).
    destruct (rename_ok base "nvim" "nvim.backup" n1 m eq_refl) as (n2 & Rn).
    { rewrite Fr; [exact G | |]; rewrite is_prefix_cancel; reflexivity. }
    { exact Gone. }
    unfold bind, console_log, remove_recursive, rename.
    rewrite fs_call_no_fault by exact F. cbn [emit fs]. rewrite Rm.
    rewrite fs_call_no_fault by exact F. cbn [with_fs emit fs]. rewrite Rn.
    eexists. reflexivity.
  - pose proof (stat_child_absent _ _ _ _ D B) as St.
    rewrite St.
    destruct (rename_ok base "nvim" "nvim.backup" (fs w) m eq_refl G B)
      as (n2 & Rn).
    unfold bind, console_log, ret, rename.
    rewrite fs_call_no_fault by exact F. cbn [emit fs]. rewrite Rn.
    eexists. reflexivity.
Qed.

End BackupProgress.

(* ================================================================== *)
(** ** The loop over the entries *)

Module LoopFacts.
Import Rt Script Props FsFacts RtFacts BackupFacts FrameFacts StepFrames
  InstallFacts RunFacts.
#[local] Open Scope list_scope.

(** One round of the loop, however it ends. *)
Lemma entry_cases this cf w o w' :
  writeConfigFile this cf w = (o, w') ->
  (exists w1,
      Fs.mkdir_p (dirname (destination this cf)) (fs w) = Fs.Ok (fs w1)
      /\ trace w1 = trace w ++ [EnsureDir (dirname (destination this cf))]
      /\ ((o = Return tt
           /\ Fs.write_file (destination this cf) (content cf) (fs w1)
              = Fs.Ok (fs w')
           /\ trace w' = trace w1
                ++ [WriteTextFile (destination this cf) (content cf);
                    Log ("✅ Created: " ++ description cf)%string])
          \/ ((exists e, o = Throw e) /\ fs w' = fs w1
              /\ trace w' = trace w1
                   ++ [WriteTextFile (destination this cf) (content cf)])))
  \/ ((exists e, o = Throw e) /\ fs w' = fs w
      /\ trace w' = trace w ++ [EnsureDir (dirname (destination this cf))]).
Proof.
  unfold writeConfigFile. fold (destination this cf). intros H.
  destruct (bind_cases _ _ _ _ _ H)
    as [(u1 & w1 & S1 & K)|[(e & S1 & ->)|(x & S1 & ->)]].
  - left. exists w1.
    destruct (fs_call_return _ _ _ _ _ _ S1) as (Mk & _ & [_ _ Tr1]).
    split; [exact Mk|]. split; [exact Tr1|].
    destruct (bind_cases _ _ _ _ _ K)
      as [(u2 & w2 & S2 & L)|[(e & S2 & ->)|(x & S2 & ->)]].
    + left. inversion L; subst.
      destruct (fs_call_return _ _ _ _ _ _ S2) as (Wr & _ & [_ _ Tr2]).
      split; [reflexivity|]. split; [exact Wr|].
      simpl. rewrite Tr2, <- app_assoc. reflexivity.
    + right. destruct (fs_call_any _ _ _ _ _ _ S2) as ([_ _ Tr2] & _ & Same).
      destruct Same as [F _]; [discriminate|].
      split; [exists e; reflexivity|]. split; assumption.
    + destruct (fs_call_any _ _ _ _ _ _ S2) as (_ & NoExit & _).
      exfalso. apply (NoExit x). reflexivity.
  - right. destruct (fs_call_any _ _ _ _ _ _ S1) as ([_ _ Tr1] & _ & Same).
    destruct Same as [F _]; [discriminate|].
    split; [exists e; reflexivity|]. split; assumption.
  - destruct (fs_call_any _ _ _ _ _ _ S1) as (_ & NoExit & _).
    exfalso. apply (NoExit x). reflexivity.
Qed.

(** A round that returns has put its file. *)
Lemma entry_writes this cf w w' :
  writeConfigFile this cf w = (Return tt, w') ->
  at_path w' (destination this cf) = Some (Fs.File (content cf)).
Proof.
  intros H. destruct (entry_cases _ _ _ _ _ H)
    as [(w1 & _ & _ & [(_ & Wr & _)|([e E] & _)])|([e E] & _)];
    try discriminate.
  apply (write_file_at _ _ _ _ Wr).
Qed.

(** A round, however it ends, leaves the regular files at other paths
    as they are. *)
Lemma entry_keeps_file this cf w o w' q s :
  writeConfigFile this cf w = (o, w') ->
  at_path w q = Some (Fs.File s) ->
  q <> destination this cf \/ o <> Return tt ->
  at_path w' q = Some (Fs.File s).
Proof.
  unfold at_path. intros H F N. destruct (entry_cases _ _ _ _ _ H)
    as [(w1 & Mk & _ & [(-> & Wr & _)|([e E] & Same & _)])|([e E] & Same & _)].
  - destruct N as [N|N]; [|contradiction].
    apply (write_file_keeps_file _ _ _ _ _ _ Wr); [|exact N].
    apply (mkdir_p_keeps_file _ _ _ _ _ Mk F).
  - rewrite Same. apply (mkdir_p_keeps_file _ _ _ _ _ Mk F).
  - rewrite Same. exact F.
Qed.

Lemma loop_keeps_file this cfs : forall w w' q s,
  writeConfigFiles this cfs w = (Return tt, w') ->
  at_path w q = Some (Fs.File s) ->
  ~ In q (map (destination this) cfs) ->
  at_path w' q = Some (Fs.File s).
Proof.
  unfold writeConfigFiles.
  induction cfs as [|cf cfs IH]; intros w w' q s H F N; simpl in *.
  - inversion H; subst. exact F.
  - inv_bind H as u1 w1 S1. destruct u1.
    apply (IH _ _ _ _ H); [|intros I; apply N; right; exact I].
    apply (entry_keeps_file _ _ _ _ _ _ _ S1 F).
    left. intros E. apply N. left. symmetry. exact E.
Qed.

(** After the loop every entry's path holds a regular file: the content
    of the entry itself when no later entry has the same destination. *)
Lemma loop_files this cfs : forall w w' cf,
  writeConfigFiles this cfs w = (Return tt, w') ->
  In cf cfs ->
  exists s, at_path w' (destination this cf) = Some (Fs.File s)
            /\ (NoDup (map (destination this) cfs) -> s = content cf).
Proof.
  induction cfs as [|cf0 cfs IH]; intros w w' cf H I; [contradiction|].
  unfold writeConfigFiles in H. simpl in H.
  inv_bind H as u1 w1 S1. destruct u1.
  fold (writeConfigFiles this cfs) in H.
  destruct I as [<-|I].
  - destruct (in_dec (list_eq_dec string_dec) (destination this cf0)
                (map (destination this) cfs)) as [Later|Last].
    + apply in_map_iff in Later as (cf1 & E1 & I1).
      destruct (IH _ _ cf1 H I1) as (s & G & _).
      exists s. rewrite <- E1. split; [exact G|].
      intros ND. exfalso. simpl in ND. inversion ND as [|? ? NI ND']; subst.
      apply NI. rewrite <- E1. apply in_map. exact I1.
    + exists (content cf0). split; [|reflexivity].
      apply (loop_keeps_file _ _ _ _ _ _ H); [|exact Last].
      apply (entry_writes _ _ _ _ S1).
  - destruct (IH _ _ cf H I) as (s & G & U).
    exists s. split; [exact G|]. intros ND. apply U.
    simpl in ND. inversion ND. assumption.
Qed.

(** The calls of the loop: the writes come in the order of the list. *)
Lemma writes_app evs1 evs2 : writes (evs1 ++ evs2) = writes evs1 ++ writes evs2.
Proof.
  induction evs1 as [|e evs1 IH]; simpl; [reflexivity|].
  destruct e; simpl; rewrite IH; reflexivity.
Qed.

Lemma loop_writes this cfs : forall w w',
  writeConfigFiles this cfs w = (Return tt, w') ->
  exists evs, trace w' = trace w ++ evs
    /\ writes evs = map (fun cf => (destination this cf, content cf)) cfs.
Proof.
  unfold writeConfigFiles.
  induction cfs as [|cf cfs IH]; intros w w' H; simpl in *.
  - inversion H; subst. exists []. split; [symmetry; apply app_nil_r|reflexivity].
  - inv_bind H as u1 w1 S1. destruct u1.
    destruct (IH _ _ H) as (evs & Tr & W).
    destruct (entry_cases _ _ _ _ _ S1)
      as [(w0 & _ & Tr0 & [(_ & _ & Tr1)|([e E] & _)])|([e E] & _)];
      try discriminate.
    eexists. rewrite Tr, Tr1, Tr0, <- !app_assoc. split; [reflexivity|].
    rewrite !writes_app, W. reflexivity.
Qed.

(** A round that throws ends the loop there. *)
Lemma loop_aborts this l1 cf l2 : forall w w1 e w2,
  writeConfigFiles this l1 w = (Return tt, w1) ->
  writeConfigFile this cf w1 = (Throw e, w2) ->
  writeConfigFiles this (l1 ++ cf :: l2) w = (Throw e, w2).
Proof.
  unfold writeConfigFiles.
  induction l1 as [|cf1 l1 IH]; intros w w1 e w2 H1 H2; simpl in *.
  - inversion H1; subst. unfold bind. rewrite H2. reflexivity.
  - inv_bind H1 as u1 w0 S1. unfold bind at 1. rewrite S1.
    apply (IH _ _ _ _ H1 H2).
Qed.

(** *** Nothing but the handler of [run] ends the process *)














End LoopFacts.

(* ================================================================== *)
(** ** The claims *)

Module Claims.
Import Rt Script Props FsFacts RtFacts BackupFacts FrameFacts StepFrames
  InstallFacts RunFacts BackupRun BackupProgress LoopFacts.
#[local] Open Scope list_scope.

Section Installer.

Variables (texts : Texts) (homeDir : string) (no_sample : bool).

Let this : NeovimSetup := instance texts homeDir no_sample.
Let target : Fs.path := configDir this.
Let backup : Fs.path := backupDir this.

(** C1.  The backup step.  When the target directory exists as the step
    starts and the step returns, what was at the target is found at the
    backup path and nothing is left at the target.  When the target
    does not exist the step leaves the file system as it is, whatever
    its outcome: its only call is the existence test.  So when the step
    returns exactly one of the two holds: there was no prior
    configuration, or the prior configuration is now at the backup
    path.  And the step of an existing target does return unless the
    surroundings make one of its calls fail. *)
Theorem C1_backup_step_relocates_target w o w' :
  backupExistingConfig this w = (o, w') ->
  (o = Return tt -> forall n, at_path w target = Some n ->
     at_path w' backup = Some n /\ at_path w' target = None)
  /\ (at_path w target = None ->
      fs w' = fs w /\ trace w' = trace w ++ [Exists target])
  /\ (o = Return tt ->
      (at_path w target = None
       /\ ~ (exists n, at_path w target = Some n
                       /\ at_path w' backup = Some n))
      \/ (at_path w target <> None
          /\ exists n, at_path w target = Some n
                       /\ at_path w' backup = Some n))
  /\ (faults w = [] -> at_path w target <> None -> o = Return tt).
Proof.
  intros H.
  assert (Moved : o = Return tt -> forall n, at_path w target = Some n ->
            at_path w' backup = Some n /\ at_path w' target = None).
  { intros -> n A.
    destruct (backup_return_state texts homeDir no_sample w w' H) as (G & _ & B).
    - fold this. fold target. rewrite A. discriminate.
    - fold this target backup in G, B. split; [|exact G].
      destruct B as [B _]; [rewrite A; discriminate|]. congruence. }
  split; [exact Moved|]. split; [|split].
  - intros A. destruct (backup_absent _ _ _ _ H A) as (F & _ & Tr & _).
    split; assumption.
  - intros E. destruct (at_path w target) as [n|] eqn:A.
    + right. split; [discriminate|]. exists n.
      split; [reflexivity | apply (Moved E n eq_refl)].
    + left. split; [reflexivity|]. intros (n & N & _). discriminate.
  - intros F T.
    destruct (backup_step_returns texts homeDir no_sample w F T) as [w1 R].
    fold this in R. rewrite R in H. injection H as <- _. reflexivity.
Qed.





(** C6.  The loop of [createConfigFiles] issues its writes in the order
    of the list.  When the entries before some entry have been written
    and that entry throws, the loop over the whole list throws the same
    error in the very state the entry failed in: the entries after it
    are not touched and nothing is undone, so every earlier entry's
    destination still holds a regular file (with that entry's content
    when the earlier destinations are pairwise distinct). *)
Theorem C6_failed_entry_aborts_the_loop (setup : NeovimSetup)
  l1 cf l2 w w1 e w2 :
  writeConfigFiles setup l1 w = (Return tt, w1) ->
  writeConfigFile setup cf w1 = (Throw e, w2) ->
  writeConfigFiles setup (l1 ++ cf :: l2) w = (Throw e, w2)
  /\ (exists evs,
        trace w1 = trace w ++ evs
        /\ writes evs
           = map (fun cf' => (destination setup cf', content cf')) l1)
  /\ (forall cf', In cf' l1 ->
      exists s, at_path w2 (destination setup cf') = Some (Fs.File s)
                /\ (NoDup (map (destination setup) l1) -> s = content cf')).
Proof.
  intros H1 H2. split; [apply (loop_aborts _ _ _ _ _ _ _ _ H1 H2)|].
  split; [apply (loop_writes _ _ _ _ H1)|].
  intros cf' I. destruct (loop_files _ _ _ _ _ H1 I) as (s & G & U).
  exists s. split; [|exact U].
  apply (entry_keeps_file _ _ _ _ _ _ _ H2 G). right. discriminate.
Qed.







End Installer.

End Claims.

(* ================================================================== *)
(** ** The claims on the sample worlds *)

Module Checks.
Import Rt Script Props Claims.
#[local] Open Scope list_scope.

Lemma C1_witness :
  at_path (snd (backupExistingConfig Scenario.this Scenario.configured))
    (backupDir Scenario.this) = Some Scenario.old_config
  /\ at_path (snd (backupExistingConfig Scenario.this Scenario.configured))
       (configDir Scenario.this) = None.
Proof.
  destruct (C1_backup_step_relocates_target Scenario.texts "/home/u" false
              Scenario.configured _ _
              (surjective_pairing
                 (backupExistingConfig Scenario.this Scenario.configured)))
    as [Moved _].
  apply (Moved eq_refl Scenario.old_config). reflexivity.
Defined.







Lemma C6_witness :
  writeConfigFiles Scenario.this
    ([Scenario.entry_a] ++ Scenario.entry_below_a :: [Scenario.entry_c])
    Scenario.fresh
  = (Throw (OsError Fs.ENOTDIR),
     snd (writeConfigFile Scenario.this Scenario.entry_below_a
            (snd (writeConfigFiles Scenario.this [Scenario.entry_a]
                    Scenario.fresh))))
  /\ (exists evs,
        trace (snd (writeConfigFiles Scenario.this [Scenario.entry_a]
                      Scenario.fresh))
        = trace Scenario.fresh ++ evs
        /\ writes evs
           = map (fun cf' => (destination Scenario.this cf', content cf'))
               [Scenario.entry_a])
  /\ (forall cf', In cf' [Scenario.entry_a] ->
      exists s,
        at_path
          (snd (writeConfigFile Scenario.this Scenario.entry_below_a
                  (snd (writeConfigFiles Scenario.this [Scenario.entry_a]
                          Scenario.fresh))))
          (destination Scenario.this cf') = Some (Fs.File s)
        /\ (NoDup (map (destination Scenario.this) [Scenario.entry_a]) ->
            s = content cf')).
Proof.
  apply (C6_failed_entry_aborts_the_loop Scenario.this
           [Scenario.entry_a] Scenario.entry_below_a [Scenario.entry_c]
           Scenario.fresh);
    vm_compute; reflexivity.
Defined.






End Checks.
